(** * A fixed pendulum driven by the keyboard (mhs.py)

    Shallow embedding of [Pendulum] and [SimulationWindow] from [mhs.py],
    together with the parts of pymunk ([Vec2d], [Body], [Space]) and of
    Python's [math] module that the two classes call.

    Numbers.  Python floats are idealised as real numbers: every arithmetic
    operation of the source is its exact counterpart on [R], and [math.cos],
    [math.sin], [math.atan2] and [math.sqrt] are the mathematical functions.
    Statements that the program meets "within floating-point tolerance" are
    therefore equalities here; rounding, overflow, signed zeros and NaN are
    outside the model.

    Objects.  pymunk bodies are mutable objects shared between the space
    and the pendulum; they live in a heap addressed by references, and both
    owners hold references.

    Engine.  [Space.step] (integrator and constraint solver) is not part of
    the program; it is a section variable wherever the window's [update] is
    involved. *)

From Stdlib Require Import Reals Lra List ZArith String Ascii Bool Arith Lia.
From Stdlib Require Import DecimalString NArith.
Import ListNotations.

Open Scope R_scope.

(** ** Python exceptions *)

Inductive exn : Type :=
| ZeroDivisionError.

Inductive result (A : Type) : Type :=
| Ok (a : A)
| Raise (e : exn).

Arguments Ok {A} a.
Arguments Raise {A} e.

Definition bind {A B : Type} (m : result A) (k : A -> result B) : result B :=
  match m with
  | Ok a => k a
  | Raise e => Raise e
  end.

Notation "x <- m ;; k" := (bind m (fun x => k))
  (at level 61, m at next level, right associativity).

(** ** The [math] module *)

Module Math.

(** [math.radians(x)]: [x * (pi / 180)]. *)
Definition radians (x : R) : R := x * (PI / 180).

(** [math.degrees(x)]: [x * (180 / pi)]. *)
Definition degrees (x : R) : R := x * (180 / PI).

(** [math.atan2(y, x)]: the angle of the point [(x, y)], in (-pi, pi],
    and 0 at the origin. *)
Definition atan2 (y x : R) : R :=
  if Rlt_dec 0 x then atan (y / x)
  else if Rlt_dec x 0 then
    if Rle_dec 0 y then atan (y / x) + PI else atan (y / x) - PI
  else if Rlt_dec 0 y then PI / 2
  else if Rlt_dec y 0 then - (PI / 2)
  else 0.

End Math.

(** ** [pymunk.Vec2d] *)

Module Vec2d.

Record t : Type := mk { x : R; y : R }.

(** [Vec2d.__sub__] *)
Definition sub (a b : t) : t := mk (x a - x b) (y a - y b).

(** [Vec2d.__add__] *)
Definition add (a b : t) : t := mk (x a + x b) (y a + y b).

(** [Vec2d.__mul__] and [__rmul__]: [Vec2d(self.x * other, self.y * other)]. *)
Definition mul (v : t) (k : R) : t := mk (x v * k) (y v * k).

(** [Vec2d.__truediv__]: [Vec2d(self.x / other, self.y / other)]; Python's
    float division raises on a zero divisor. *)
Definition truediv (v : t) (k : R) : result t :=
  if Req_dec_T k 0 then Raise ZeroDivisionError
  else Ok (mk (x v / k) (y v / k)).

(** [Vec2d.length]: [math.sqrt(self.x**2 + self.y**2)]. *)
Definition length (v : t) : R := sqrt (x v ^ 2 + y v ^ 2).

(** [Vec2d.normalized]:
<<
    length = self.length
    if length != 0:
        return self / length
    return Vec2d(0, 0)
>> *)
Definition normalized (v : t) : result t :=
  let l := length v in
  if Req_dec_T l 0 then Ok (mk 0 0) else truediv v l.

(** [Vec2d.rotated(angle_radians)] *)
Definition rotated (v : t) (angle_radians : R) : t :=
  let c := cos angle_radians in
  let s := sin angle_radians in
  mk (x v * c - y v * s) (x v * s + y v * c).

(** [Vec2d.rotated_degrees(angle_degrees)] *)
Definition rotated_degrees (v : t) (angle_degrees : R) : t :=
  rotated v (Math.radians angle_degrees).

(** [Vec2d.get_angle_between(other)]:
<<
    cross = self.x * other[1] - self.y * other[0]
    dot = self.x * other[0] + self.y * other[1]
    return math.atan2(cross, dot)
>> *)
Definition get_angle_between (v other : t) : R :=
  let cross := x v * y other - y v * x other in
  let dot := x v * x other + y v * y other in
  Math.atan2 cross dot.

(** [Vec2d.get_angle_degrees_between(other)] *)
Definition get_angle_degrees_between (v other : t) : R :=
  Math.degrees (get_angle_between v other).

Lemma eq_intro (a b : t) : x a = x b -> y a = y b -> a = b.
Proof. destruct a, b; simpl; intros -> ->; reflexivity. Qed.

End Vec2d.

(** ** Facts about [math.atan2] *)

Section Atan2.

Import Math.

Lemma atan2_range (b a : R) : - PI < atan2 b a <= PI.
Proof.
  pose proof PI_RGT_0 as HPI.
  unfold atan2.
  destruct (Rlt_dec 0 a) as [Ha | Ha].
  - pose proof (atan_bound (b / a)); lra.
  - destruct (Rlt_dec a 0) as [Ha' | Ha'].
    + destruct (Rle_dec 0 b) as [Hb | Hb].
      * assert (Hq : b / a <= 0).
        { pose proof (Rinv_lt_0_compat a Ha'). unfold Rdiv. nra. }
        pose proof (atan_bound (b / a)) as Hbd.
        assert (atan (b / a) <= 0).
        { destruct Hq as [Hq | Hq].
          - left. rewrite <- atan_0. apply atan_increasing. exact Hq.
          - rewrite Hq, atan_0. lra. }
        lra.
      * assert (Hq : 0 < b / a).
        { pose proof (Rinv_lt_0_compat a Ha'). unfold Rdiv. nra. }
        pose proof (atan_bound (b / a)) as Hbd.
        assert (0 < atan (b / a)).
        { rewrite <- atan_0. apply atan_increasing. exact Hq. }
        lra.
    + destruct (Rlt_dec 0 b); [lra |].
      destruct (Rlt_dec b 0); lra.
Qed.

Lemma atan2_polar (L theta : R) :
  0 < L -> - PI < theta < PI ->
  atan2 (L * sin theta) (L * cos theta) = theta.
Proof.
  intros HL [Hlo Hhi].
  pose proof PI_RGT_0 as HPI.
  destruct (Rtotal_order theta (- (PI / 2))) as [H1 | [H1 | H1]].
  - (* third quadrant *)
    set (phi := theta + PI).
    assert (Hphi : - (PI / 2) < phi < PI / 2) by (unfold phi; lra).
    assert (Hc : 0 < cos phi) by (apply cos_gt_0; lra).
    assert (Hs : 0 < sin phi) by (apply sin_gt_0; unfold phi; lra).
    assert (Es : sin theta = - sin phi) by (unfold phi; rewrite neg_sin; ring).
    assert (Ec : cos theta = - cos phi) by (unfold phi; rewrite neg_cos; ring).
    unfold atan2. rewrite Es, Ec.
    destruct (Rlt_dec 0 (L * - cos phi)) as [A | A]; [nra |].
    destruct (Rlt_dec (L * - cos phi) 0) as [B | B]; [| nra].
    destruct (Rle_dec 0 (L * - sin phi)) as [C | C]; [nra |].
    replace (L * - sin phi / (L * - cos phi)) with (tan phi)
      by (unfold tan; field; lra).
    rewrite atan_tan by exact Hphi. unfold phi. ring.
  - (* straight left of the rest direction *)
    subst theta. rewrite sin_neg, cos_neg, sin_PI2, cos_PI2.
    unfold atan2.
    destruct (Rlt_dec 0 (L * 0)) as [A | A]; [lra |].
    destruct (Rlt_dec (L * 0) 0) as [B | B]; [lra |].
    destruct (Rlt_dec 0 (L * - (1))) as [C | C]; [lra |].
    destruct (Rlt_dec (L * - (1)) 0) as [D | D]; lra.
  - destruct (Rtotal_order theta (PI / 2)) as [H2 | [H2 | H2]].
    + (* right half plane *)
      assert (Hc : 0 < cos theta) by (apply cos_gt_0; lra).
      unfold atan2.
      destruct (Rlt_dec 0 (L * cos theta)) as [A | A]; [| nra].
      replace (L * sin theta / (L * cos theta)) with (tan theta)
        by (unfold tan; field; lra).
      apply atan_tan. lra.
    + subst theta. rewrite sin_PI2, cos_PI2.
      unfold atan2.
      destruct (Rlt_dec 0 (L * 0)) as [A | A]; [lra |].
      destruct (Rlt_dec (L * 0) 0) as [B | B]; [lra |].
      destruct (Rlt_dec 0 (L * 1)) as [C | C]; lra.
    + (* second quadrant *)
      set (phi := theta - PI).
      assert (Hphi : - (PI / 2) < phi < PI / 2) by (unfold phi; lra).
      assert (Hc : 0 < cos phi) by (apply cos_gt_0; lra).
      assert (Hs : sin phi < 0).
      { apply sin_lt_0_var; unfold phi; lra. }
      assert (Et : theta = phi + PI) by (unfold phi; ring).
      assert (Es : sin theta = - sin phi) by (rewrite Et; apply neg_sin).
      assert (Ec : cos theta = - cos phi) by (rewrite Et; apply neg_cos).
      unfold atan2. rewrite Es, Ec.
      destruct (Rlt_dec 0 (L * - cos phi)) as [A | A]; [nra |].
      destruct (Rlt_dec (L * - cos phi) 0) as [B | B]; [| nra].
      destruct (Rle_dec 0 (L * - sin phi)) as [C | C]; [| nra].
      replace (L * - sin phi / (L * - cos phi)) with (tan phi)
        by (unfold tan; field; lra).
      rewrite atan_tan by exact Hphi. unfold phi. ring.
Qed.

End Atan2.

(** ** [pymunk.Body] *)

Inductive BodyType : Type := DYNAMIC | KINEMATIC | STATIC.

(** Mass and moment of inertia: finite for a dynamic body, infinite for a
    static or kinematic one; the engine works with the inverses. *)
Inductive Mass : Type :=
| Finite (m : R)
| Infinite.

Definition inverse (m : Mass) : R :=
  match m with
  | Finite m => 1 / m
  | Infinite => 0
  end.

(** [pymunk.moment_for_circle(mass, inner_radius, outer_radius, offset)]:
    [mass * (0.5 * (r1*r1 + r2*r2) + offset.dot(offset))]. *)
Definition moment_for_circle
  (mass inner_radius outer_radius : R) (offset : Vec2d.t) : R :=
  mass * (0.5 * (inner_radius * inner_radius + outer_radius * outer_radius)
          + (Vec2d.x offset * Vec2d.x offset + Vec2d.y offset * Vec2d.y offset)).

Module Body.

Record t : Type := mk {
  body_type : BodyType;
  mass : Mass;
  moment : Mass;
  position : Vec2d.t;
  velocity : Vec2d.t;
  angle : R;
  angular_velocity : R
}.

(** [pymunk.Body(mass, moment, body_type)]: at the origin, at rest, not
    rotated.  The centre of gravity is the body's origin (the default,
    which the program never changes). *)
Definition new (m i : R) (ty : BodyType) : t :=
  match ty with
  | DYNAMIC => mk DYNAMIC (Finite m) (Finite i) (Vec2d.mk 0 0) (Vec2d.mk 0 0) 0 0
  | _ => mk ty Infinite Infinite (Vec2d.mk 0 0) (Vec2d.mk 0 0) 0 0
  end.

(** [body.position = p] *)
Definition set_position (b : t) (p : Vec2d.t) : t :=
  mk (body_type b) (mass b) (moment b) p (velocity b) (angle b)
     (angular_velocity b).

(** [body.angle = a] *)
Definition set_angle (b : t) (a : R) : t :=
  mk (body_type b) (mass b) (moment b) (position b) (velocity b) a
     (angular_velocity b).

(** The body's transform applied to a direction: rotation by the body's
    angle. *)
Definition transform_vect (b : t) (v : Vec2d.t) : Vec2d.t :=
  Vec2d.rotated v (angle b).

(** [body.local_to_world(p)] *)
Definition local_to_world (b : t) (p : Vec2d.t) : Vec2d.t :=
  Vec2d.add (position b) (transform_vect b p).

(** [body.apply_impulse_at_world_point(impulse, point)]:
<<
    r = point - body.position
    body.velocity += impulse * m_inv
    body.angular_velocity += i_inv * cross(r, impulse)
>> *)
Definition apply_impulse_at_world_point (b : t) (impulse point : Vec2d.t) : t :=
  let r := Vec2d.sub point (position b) in
  mk (body_type b) (mass b) (moment b) (position b)
     (Vec2d.add (velocity b) (Vec2d.mul impulse (inverse (mass b))))
     (angle b)
     (angular_velocity b
      + inverse (moment b)
        * (Vec2d.x r * Vec2d.y impulse - Vec2d.y r * Vec2d.x impulse)).

(** [body.apply_impulse_at_local_point(impulse, point=(0, 0))]: impulse and
    point are given in the body's own frame and are taken to world
    coordinates first. *)
Definition apply_impulse_at_local_point (b : t) (impulse point : Vec2d.t) : t :=
  apply_impulse_at_world_point b (transform_vect b impulse)
                               (local_to_world b point).

End Body.

(** ** The heap of bodies and [pymunk.Space] *)

Definition ref : Type := nat.

(** Bodies by reference.  References that were never allocated are never
    read. *)
Definition Heap : Type := ref -> Body.t.

Definition write (h : Heap) (r : ref) (b : Body.t) : Heap :=
  fun r' => if Nat.eqb r' r then b else h r'.

Module Space.

(** [pymunk.Circle(body, radius, offset=(0, 0))] *)
Inductive shape : Type :=
| Circle (body : ref) (radius : R) (offset : Vec2d.t).

(** [pymunk.constraints.PinJoint(a, b, anchor_a, anchor_b)]; [dist] is the
    length of the rod. *)
Inductive constraint : Type :=
| PinJoint (a b : ref) (anchor_a anchor_b : Vec2d.t) (dist : R).

(** [PinJoint(a, b, anchor_a=(0, 0), anchor_b=(0, 0))]: the rod's length is
    the distance between the two anchors when the joint is created. *)
Definition pin_joint (h : Heap) (a b : ref) (anchor_a anchor_b : Vec2d.t)
  : constraint :=
  PinJoint a b anchor_a anchor_b
    (Vec2d.length (Vec2d.sub (Body.local_to_world (h b) anchor_b)
                             (Body.local_to_world (h a) anchor_a))).

Record t : Type := mk {
  gravity : Vec2d.t;
  bodies : list ref;
  shapes : list shape;
  constraints : list constraint
}.

(** [pymunk.Space()] *)
Definition new : t := mk (Vec2d.mk 0 0) [] [] [].

(** [space.gravity = g] *)
Definition set_gravity (s : t) (g : Vec2d.t) : t :=
  mk g (bodies s) (shapes s) (constraints s).

Inductive object : Type :=
| OBody (r : ref)
| OShape (sh : shape)
| OConstraint (c : constraint).

Definition add1 (s : t) (o : object) : t :=
  match o with
  | OBody r => mk (gravity s) (bodies s ++ [r]) (shapes s) (constraints s)
  | OShape sh => mk (gravity s) (bodies s) (shapes s ++ [sh]) (constraints s)
  | OConstraint c => mk (gravity s) (bodies s) (shapes s) (constraints s ++ [c])
  end.

(** [space.add( *objs )] *)
Definition add (s : t) (objs : list object) : t := fold_left add1 objs s.

End Space.

(** Everything the program's objects refer to: the bodies, the one space,
    and a ghost record of the calls of [Pendulum.accelerate] (the
    [direction] argument of each, oldest first), kept so that "is called"
    can be stated. *)
Record World : Type := mkWorld {
  heap : Heap;
  next_ref : ref;
  space : Space.t;
  accelerate_calls : list Vec2d.t
}.

(** Allocation of a new body object. *)
Definition alloc (w : World) (b : Body.t) : ref * World :=
  (next_ref w,
   mkWorld (write (heap w) (next_ref w) b) (S (next_ref w)) (space w)
           (accelerate_calls w)).

Definition set_body (w : World) (r : ref) (b : Body.t) : World :=
  mkWorld (write (heap w) r b) (next_ref w) (space w) (accelerate_calls w).

Definition set_space (w : World) (s : Space.t) : World :=
  mkWorld (heap w) (next_ref w) s (accelerate_calls w).

(** [body.position = pos], for the body that [r] refers to. *)
Definition assign_position (w : World) (r : ref) (pos : Vec2d.t) : World :=
  set_body w r (Body.set_position (heap w r) pos).

(** ** [class Pendulum] *)

Module Pendulum.

Definition MASS : R := 0.100.
Definition FORCE : R := 10.

(** [self.static_body] and [self.circle_body]; [self.space] is the
    world's space. *)
Record t : Type := mk {
  static_body : ref;
  circle_body : ref
}.

(** [Pendulum._create_entities], which is all [Pendulum.__init__] does
    after storing the space. *)
Definition create_entities (w : World) : t * World :=
  let (static_body, w) := alloc w (Body.new 0 0 STATIC) in
  let w := assign_position w static_body (Vec2d.mk 360 360) in
  let moment := moment_for_circle MASS 0 10.0 (Vec2d.mk 0 0) in
  let (circle_body, w) := alloc w (Body.new MASS moment DYNAMIC) in
  let w := assign_position w circle_body (Vec2d.mk 360 50) in
  let circle_shape := Space.Circle circle_body 10.0 (Vec2d.mk 0 0) in
  let rod_joint :=
    Space.pin_joint (heap w) static_body circle_body
                    (Vec2d.mk 0 0) (Vec2d.mk 0 0) in
  let w := set_space w
             (Space.add (space w)
                [Space.OBody static_body; Space.OBody circle_body;
                 Space.OShape circle_shape; Space.OConstraint rod_joint]) in
  (mk static_body circle_body, w).

Definition init (w : World) : t * World := create_entities w.

(** [Pendulum.vector] *)
Definition vector (p : t) (w : World) : Vec2d.t :=
  Vec2d.sub (Body.position (heap w (circle_body p)))
            (Body.position (heap w (static_body p))).

(** [Pendulum.angle] *)
Definition angle (p : t) (w : World) : R :=
  Vec2d.get_angle_degrees_between (Vec2d.mk 0 (-1)) (vector p w).

(** The impulse [accelerate] hands to the body. *)
Definition impulse_of (direction : Vec2d.t) : result Vec2d.t :=
  n <- Vec2d.normalized direction ;;
  Ok (Vec2d.mul n FORCE).

(** [Pendulum.accelerate] *)
Definition accelerate (p : t) (direction : Vec2d.t) (w : World) : result World :=
  let w := mkWorld (heap w) (next_ref w) (space w)
                   (accelerate_calls w ++ [direction]) in
  impulse <- impulse_of direction ;;
  Ok (set_body w (circle_body p)
        (Body.apply_impulse_at_local_point (heap w (circle_body p)) impulse
                                           (Vec2d.mk 0 0))).

End Pendulum.

(** ** String formatting: the format specification [4.0f] *)

Module Format.

Open Scope string_scope.

(** Rounding to the nearest integer, ties to the even one, as Python's
    float formatting does. *)
Definition round_half_even (x : R) : Z :=
  let f := Int_part x in
  let r := frac_part x in
  if Rlt_dec r (1 / 2) then f
  else if Rlt_dec (1 / 2) r then (f + 1)%Z
  else if Z.even f then f else (f + 1)%Z.

(** Decimal digits of a natural number. *)
Definition digits (n : N) : string :=
  DecimalString.NilZero.string_of_uint (N.to_uint n).

Fixpoint spaces (n : nat) : string :=
  match n with
  | O => ""
  | S n => String " " (spaces n)
  end.

(** Numbers are right-aligned in the field; a longer text is not cut. *)
Definition rjust (width : nat) (s : string) : string :=
  spaces (width - String.length s) ++ s.

(** The part of the text before padding: a minus sign for a negative
    value, then the digits of the rounded value. *)
Definition signed_integer (x : R) : string :=
  (if Rlt_dec x 0 then "-" else "") ++ digits (Z.to_N (Z.abs (round_half_even x))).

(** [f"{x:4.0f}"] *)
Definition format_4_0f (x : R) : string := rjust 4 (signed_integer x).

End Format.

(** ** [class SimulationWindow] *)

Module key.
(** [pyglet.window.key.LEFT] and [RIGHT] *)
Definition LEFT : Z := 65361.
Definition RIGHT : Z := 65363.
End key.

(** [pyglet.window.key.KeyStateHandler]: indexing gives [True] for the keys
    held down, [False] for all others. *)
Definition KeyStateHandler : Type := Z -> bool.

(** [pyglet.text.Label] *)
Record Label : Type := mkLabel {
  text : string;
  font_size : Z;
  label_x : Z;
  label_y : Z;
  color : Z * Z * Z * Z
}.

Module SimulationWindow.

Definition CAPTION : string := "PyMunk Fixed Pendulum Simulation.".
Definition WIDTH : Z := 720.
Definition HEIGHT : Z := 720.
Definition INTERVAL : R := 1.0 / 100.
Definition FONT_SIZE : Z := 16.
Definition FONT_COLOR : Z * Z * Z * Z := (255, 255, 255, 255)%Z.

Record t : Type := mk {
  world : World;
  model : Pendulum.t;
  keyboard : KeyStateHandler;
  angle_label : Label
}.

Definition set_world (s : t) (w : World) : t :=
  mk w (model s) (keyboard s) (angle_label s).

Definition set_keyboard (s : t) (k : KeyStateHandler) : t :=
  mk (world s) (model s) k (angle_label s).

Definition set_label_text (s : t) (txt : string) : t :=
  mk (world s) (model s) (keyboard s)
     (mkLabel txt (font_size (angle_label s)) (label_x (angle_label s))
              (label_y (angle_label s)) (color (angle_label s))).

(** [SimulationWindow.__init__]; the scheduling of [update] is the event
    loop's business. *)
Definition init : t :=
  let w := mkWorld (fun _ => Body.new 0 0 DYNAMIC) 0%nat Space.new [] in
  let w := set_space w (Space.set_gravity (space w) (Vec2d.mk 0 (-9807))) in
  let (model, w) := Pendulum.init w in
  mk w model (fun _ => false)
     (mkLabel "" FONT_SIZE 5 (HEIGHT - FONT_SIZE - 1) FONT_COLOR).

(** [SimulationWindow._handle_input] *)
Definition handle_input (s : t) : result t :=
  if keyboard s key.LEFT then
    let direction :=
      Vec2d.rotated_degrees (Pendulum.vector (model s) (world s)) (-90) in
    w <- Pendulum.accelerate (model s) direction (world s) ;;
    Ok (set_world s w)
  else if keyboard s key.RIGHT then
    let direction :=
      Vec2d.rotated_degrees (Pendulum.vector (model s) (world s)) 90 in
    w <- Pendulum.accelerate (model s) direction (world s) ;;
    Ok (set_world s w)
  else Ok s.

Section Engine.

(** [Space.step(dt)]: the physics engine advances the bodies registered
    in the space (and its own solver data) by [dt]. *)
Variable space_step : R -> Space.t * Heap -> Space.t * Heap.

Definition step (dt : R) (w : World) : World :=
  let (s, h) := space_step dt (space w, heap w) in
  mkWorld h (next_ref w) s (accelerate_calls w).

(** [SimulationWindow.update] *)
Definition update (dt : R) (s : t) : result t :=
  s <- handle_input s ;;
  let s := set_world s (step INTERVAL (world s)) in
  Ok (set_label_text s
        ("Angle: " ++ Format.format_4_0f (Pendulum.angle (model s) (world s))
         ++ "°")%string).

(** One tick of the event loop: the key events since the last tick have
    left the keyboard state [keys]; then [update(dt)] runs. *)
Definition tick (s : t) (e : R * KeyStateHandler) : result t :=
  update (fst e) (set_keyboard s (snd e)).

(** Position and velocity of the bob. *)
Definition bob_state (s : t) : Vec2d.t * Vec2d.t :=
  let b := heap (world s) (Pendulum.circle_body (model s)) in
  (Body.position b, Body.velocity b).

(** The bob's states after each of a sequence of ticks. *)
Fixpoint trajectory (s : t) (ticks : list (R * KeyStateHandler))
  : result (list (Vec2d.t * Vec2d.t)) :=
  match ticks with
  | [] => Ok []
  | e :: ticks =>
      s <- tick s e ;;
      rest <- trajectory s ticks ;;
      Ok (bob_state s :: rest)
  end.

End Engine.

End SimulationWindow.

(** ** States and inputs used in the statements below *)

(** The resting direction is straight down from the anchor. *)
Definition rest_direction : Vec2d.t := Vec2d.mk 0 (-1).

(** The pendulum of the running program and its world, as the window's
    constructor leaves them. *)
Definition pendulum0 : Pendulum.t := SimulationWindow.model SimulationWindow.init.
Definition world0 : World := SimulationWindow.world SimulationWindow.init.

(** The world in which the bob has been put at displacement [v] from the
    anchor. *)
Definition displace (p : Pendulum.t) (w : World) (v : Vec2d.t) : World :=
  assign_position w (Pendulum.circle_body p)
    (Vec2d.add (Body.position (heap w (Pendulum.static_body p))) v).

(** The world of the running program with the bob turned by a quarter
    turn: [circle_body.angle = pi / 2]. *)
Definition world_quarter_turn : World :=
  set_body world0 (Pendulum.circle_body pendulum0)
    (Body.set_angle (heap world0 (Pendulum.circle_body pendulum0)) (PI / 2)).

(** A stand-in for the engine, used where a statement about [update] is
    exercised on concrete input: dynamic bodies fall freely under the
    space's gravity (the joint is not enforced). *)
Definition free_fall (dt : R) (sh : Space.t * Heap) : Space.t * Heap :=
  let (s, h) := sh in
  (s,
   fun r =>
     let b := h r in
     match Body.body_type b with
     | DYNAMIC =>
         let v := Vec2d.add (Body.velocity b) (Vec2d.mul (Space.gravity s) dt) in
         Body.mk DYNAMIC (Body.mass b) (Body.moment b)
                 (Vec2d.add (Body.position b) (Vec2d.mul v dt)) v
                 (Body.angle b) (Body.angular_velocity b)
     | _ => b
     end).

(** Keyboard states: no key held, and only the left arrow held. *)
Definition no_keys : KeyStateHandler := fun _ => false.
Definition left_held : KeyStateHandler := fun k => Z.eqb k key.LEFT.
Definition both_held : KeyStateHandler :=
  fun k => Z.eqb k key.LEFT || Z.eqb k key.RIGHT.

(** ** The event loop, and notions used in further statements *)

(** [Vec2d.dot(other)]: [self.x * other[0] + self.y * other[1]]. *)
Definition dot (a b : Vec2d.t) : R :=
  Vec2d.x a * Vec2d.x b + Vec2d.y a * Vec2d.y b.


(** Whether a keyboard state makes [_handle_input] call [accelerate]. *)
Definition pushes (k : KeyStateHandler) : bool := k key.LEFT || k key.RIGHT.


(** The bob of a pendulum in a world, and the anchor. *)
Definition bob_of (p : Pendulum.t) (w : World) : Body.t :=
  heap w (Pendulum.circle_body p).

Definition anchor_of (p : Pendulum.t) (w : World) : Body.t :=
  heap w (Pendulum.static_body p).

(** * Properties *)

(** ** The heap *)

Lemma write_same (h : Heap) (r : ref) (b : Body.t) : write h r b r = b.
Proof. unfold write. rewrite Nat.eqb_refl. reflexivity. Qed.

Lemma write_other (h : Heap) (r r' : ref) (b : Body.t) :
  r' <> r -> write h r b r' = h r'.
Proof.
  intros Hne. unfold write.
  destruct (Nat.eqb_spec r' r) as [E | _]; [contradiction | reflexivity].
Qed.

(** ** Degrees and radians *)

Lemma degrees_radians (a : R) : Math.degrees (Math.radians a) = a.
Proof.
  unfold Math.degrees, Math.radians.
  pose proof PI_RGT_0. field. lra.
Qed.

Lemma radians_bounds (a : R) :
  -180 < a < 180 -> - PI < Math.radians a < PI.
Proof.
  intros [Hlo Hhi]. unfold Math.radians.
  pose proof PI_RGT_0 as HPI.
  assert (Hk : 0 < PI / 180) by lra.
  split; nra.
Qed.

(** ** The angle to the resting direction *)

Lemma angle_from_rest (v : Vec2d.t) (L a : R) :
  0 < L -> -180 < a < 180 ->
  v = Vec2d.rotated_degrees (Vec2d.mul rest_direction L) a ->
  Vec2d.get_angle_degrees_between rest_direction v = a.
Proof.
  intros HL Ha ->.
  unfold Vec2d.get_angle_degrees_between, Vec2d.get_angle_between.
  unfold Vec2d.rotated_degrees, Vec2d.rotated, Vec2d.mul, rest_direction.
  cbn [Vec2d.x Vec2d.y].
  set (t := Math.radians a).
  replace (0 * (0 * L * sin t + -1 * L * cos t)
           - -1 * (0 * L * cos t - -1 * L * sin t))
    with (L * sin t) by ring.
  replace (0 * (0 * L * cos t - -1 * L * sin t)
           + -1 * (0 * L * sin t + -1 * L * cos t))
    with (L * cos t) by ring.
  rewrite atan2_polar.
  - apply degrees_radians.
  - exact HL.
  - apply radians_bounds. exact Ha.
Qed.

Lemma rotated_degrees_0 (v : Vec2d.t) : Vec2d.rotated_degrees v 0 = v.
Proof.
  unfold Vec2d.rotated_degrees, Vec2d.rotated, Math.radians.
  rewrite Rmult_0_l, cos_0, sin_0.
  apply Vec2d.eq_intro; cbn [Vec2d.x Vec2d.y]; ring.
Qed.

Lemma angle_range (p : Pendulum.t) (w : World) :
  -180 < Pendulum.angle p w <= 180.
Proof.
  unfold Pendulum.angle, Vec2d.get_angle_degrees_between, Math.degrees.
  set (t := Vec2d.get_angle_between _ _).
  assert (Ht : - PI < t <= PI) by apply atan2_range.
  pose proof PI_RGT_0 as HPI.
  assert (Hk : 0 < 180 / PI) by (apply Rdiv_lt_0_compat; lra).
  assert (E : PI * (180 / PI) = 180) by (field; lra).
  split; nra.
Qed.

(** C1.  When the bob's displacement from the anchor is the resting
    direction [(0, -1)] scaled by a positive length, [angle] is 0; when it is
    that vector rotated by [+theta] degrees, with [theta] strictly between 0
    and 180, [angle] is [+theta], and rotated by [-theta] it is [-theta]; in
    every state the angle lies in (-180, 180]. *)
Theorem angle_of_displacement (p : Pendulum.t) (w : World) (L theta : R) :
  0 < L -> 0 < theta < 180 ->
  let rest := Vec2d.mul rest_direction L in
  (Pendulum.vector p w = rest -> Pendulum.angle p w = 0) /\
  (Pendulum.vector p w = Vec2d.rotated_degrees rest theta ->
   Pendulum.angle p w = theta) /\
  (Pendulum.vector p w = Vec2d.rotated_degrees rest (- theta) ->
   Pendulum.angle p w = - theta) /\
  -180 < Pendulum.angle p w <= 180.
Proof.
  intros HL Hth rest.
  repeat split.
  - intros E. unfold Pendulum.angle.
    apply (angle_from_rest _ L 0 HL); [lra |].
    rewrite rotated_degrees_0. exact E.
  - intros E. apply (angle_from_rest _ L theta HL); [lra | exact E].
  - intros E. apply (angle_from_rest _ L (- theta) HL); [lra | exact E].
  - apply angle_range.
  - apply angle_range.
Qed.

Lemma pendulum0_refs :
  Pendulum.static_body pendulum0 = 0%nat /\ Pendulum.circle_body pendulum0 = 1%nat.
Proof. split; reflexivity. Qed.

Lemma vector_world0 :
  Pendulum.vector pendulum0 world0 = Vec2d.mk (360 - 360) (50 - 360).
Proof. reflexivity. Qed.

Lemma vector_assign (p : Pendulum.t) (w : World) (a b : Vec2d.t) :
  Pendulum.static_body p <> Pendulum.circle_body p ->
  Pendulum.vector p
    (assign_position (assign_position w (Pendulum.static_body p) a)
                     (Pendulum.circle_body p) b)
  = Vec2d.sub b a.
Proof.
  intros Hne. unfold Pendulum.vector, assign_position, set_body.
  cbn [heap]. rewrite write_same.
  rewrite (write_other _ _ (Pendulum.static_body p)) by exact Hne.
  rewrite write_same. reflexivity.
Qed.

Lemma vector_displace (p : Pendulum.t) (w : World) (v : Vec2d.t) :
  Pendulum.static_body p <> Pendulum.circle_body p ->
  Pendulum.vector p (displace p w v) = v.
Proof.
  intros Hne. unfold Pendulum.vector, displace, assign_position, set_body.
  cbn [heap]. rewrite write_same.
  rewrite (write_other _ _ (Pendulum.static_body p)) by exact Hne.
  apply Vec2d.eq_intro; cbn; ring.
Qed.

Lemma angle_of_displacement_witness :
  Pendulum.angle pendulum0 world0 = 0 /\
  Pendulum.angle pendulum0
    (displace pendulum0 world0
       (Vec2d.rotated_degrees (Vec2d.mul rest_direction 310) 90)) = 90 /\
  Pendulum.angle pendulum0
    (displace pendulum0 world0
       (Vec2d.rotated_degrees (Vec2d.mul rest_direction 310) (- (90)))) = - (90).
Proof.
  assert (HL : 0 < 310) by lra.
  assert (Hth : 0 < 90 < 180) by lra.
  assert (Hne : Pendulum.static_body pendulum0 <> Pendulum.circle_body pendulum0)
    by (cbv; discriminate).
  repeat split.
  - apply (angle_of_displacement pendulum0 world0 310 90 HL Hth).
    rewrite vector_world0. apply Vec2d.eq_intro; cbn; lra.
  - apply (angle_of_displacement pendulum0 _ 310 90 HL Hth).
    apply vector_displace. exact Hne.
  - apply (angle_of_displacement pendulum0 _ 310 90 HL Hth).
    apply vector_displace. exact Hne.
Defined.

(** C7.  [vector] is the bob's position minus the anchor's, component by
    component, whatever the two positions are (negative coordinates
    included), and it is computed from the positions current at the call:
    after the two bodies have been given new positions it is the difference
    of the new ones. *)
Theorem vector_is_bob_minus_anchor (p : Pendulum.t) (w : World) (a b : Vec2d.t) :
  Pendulum.static_body p <> Pendulum.circle_body p ->
  let anchor := heap w (Pendulum.static_body p) in
  let bob := heap w (Pendulum.circle_body p) in
  Pendulum.vector p w
  = Vec2d.mk (Vec2d.x (Body.position bob) - Vec2d.x (Body.position anchor))
             (Vec2d.y (Body.position bob) - Vec2d.y (Body.position anchor)) /\
  Pendulum.vector p
    (assign_position (assign_position w (Pendulum.static_body p) a)
                     (Pendulum.circle_body p) b)
  = Vec2d.mk (Vec2d.x b - Vec2d.x a) (Vec2d.y b - Vec2d.y a).
Proof.
  intros Hne anchor bob. split.
  - reflexivity.
  - rewrite vector_assign by exact Hne. reflexivity.
Qed.

Lemma vector_is_bob_minus_anchor_witness :
  Pendulum.vector pendulum0
    (assign_position
       (assign_position world0 (Pendulum.static_body pendulum0)
                        (Vec2d.mk (-3) 4))
       (Pendulum.circle_body pendulum0) (Vec2d.mk (-7) (-2)))
  = Vec2d.mk (-7 - -3) (-2 - 4).
Proof.
  apply (vector_is_bob_minus_anchor pendulum0 world0
           (Vec2d.mk (-3) 4) (Vec2d.mk (-7) (-2))).
  cbv. discriminate.
Defined.

(** ** Length and normalisation *)

Lemma length_sqr (v : Vec2d.t) :
  Vec2d.length v * Vec2d.length v = Vec2d.x v ^ 2 + Vec2d.y v ^ 2.
Proof.
  unfold Vec2d.length. apply sqrt_sqrt.
  pose proof (pow2_ge_0 (Vec2d.x v)). pose proof (pow2_ge_0 (Vec2d.y v)). lra.
Qed.

Lemma length_nonneg (v : Vec2d.t) : 0 <= Vec2d.length v.
Proof. apply sqrt_pos. Qed.

Lemma length_zero_inv (v : Vec2d.t) :
  Vec2d.length v = 0 -> v = Vec2d.mk 0 0.
Proof.
  intros E. pose proof (length_sqr v) as H. rewrite E in H.
  pose proof (pow2_ge_0 (Vec2d.x v)). pose proof (pow2_ge_0 (Vec2d.y v)).
  apply Vec2d.eq_intro; cbn; nra.
Qed.

Lemma length_zero : Vec2d.length (Vec2d.mk 0 0) = 0.
Proof.
  unfold Vec2d.length. cbn.
  replace (0 * (0 * 1) + 0 * (0 * 1)) with 0 by ring. apply sqrt_0.
Qed.

Lemma length_mul (v : Vec2d.t) (k : R) :
  0 <= k -> Vec2d.length (Vec2d.mul v k) = Vec2d.length v * k.
Proof.
  intros Hk. unfold Vec2d.length, Vec2d.mul. cbn [Vec2d.x Vec2d.y].
  replace ((Vec2d.x v * k) ^ 2 + (Vec2d.y v * k) ^ 2)
    with ((Vec2d.x v ^ 2 + Vec2d.y v ^ 2) * k ^ 2) by ring.
  pose proof (pow2_ge_0 (Vec2d.x v)). pose proof (pow2_ge_0 (Vec2d.y v)).
  rewrite sqrt_mult_alt by lra.
  rewrite (sqrt_pow2 k Hk). reflexivity.
Qed.

Lemma normalized_nonzero (v : Vec2d.t) :
  v <> Vec2d.mk 0 0 ->
  Vec2d.normalized v
  = Ok (Vec2d.mk (Vec2d.x v / Vec2d.length v) (Vec2d.y v / Vec2d.length v)).
Proof.
  intros Hv. unfold Vec2d.normalized, Vec2d.truediv.
  destruct (Req_dec_T (Vec2d.length v) 0) as [E | E].
  - exfalso. apply Hv. apply length_zero_inv. exact E.
  - reflexivity.
Qed.

Lemma normalized_zero : Vec2d.normalized (Vec2d.mk 0 0) = Ok (Vec2d.mk 0 0).
Proof.
  unfold Vec2d.normalized.
  destruct (Req_dec_T (Vec2d.length (Vec2d.mk 0 0)) 0) as [E | E].
  - reflexivity.
  - exfalso. apply E. apply length_zero.
Qed.

(** [normalized] never divides by zero. *)
Lemma normalized_total (v : Vec2d.t) : exists n, Vec2d.normalized v = Ok n.
Proof.
  unfold Vec2d.normalized, Vec2d.truediv.
  destruct (Req_dec_T (Vec2d.length v) 0) as [E | E]; eauto.
Qed.

Lemma length_normalized (v n : Vec2d.t) :
  v <> Vec2d.mk 0 0 -> Vec2d.normalized v = Ok n -> Vec2d.length n = 1.
Proof.
  intros Hv. rewrite normalized_nonzero by exact Hv. intros [= <-].
  assert (Hl : Vec2d.length v <> 0).
  { intros E. apply Hv. apply length_zero_inv. exact E. }
  pose proof (length_sqr v) as Hs.
  unfold Vec2d.length at 1. cbn [Vec2d.x Vec2d.y].
  replace ((Vec2d.x v / Vec2d.length v) ^ 2 + (Vec2d.y v / Vec2d.length v) ^ 2)
    with ((Vec2d.x v ^ 2 + Vec2d.y v ^ 2)
          / (Vec2d.length v * Vec2d.length v)) by (field; exact Hl).
  rewrite Hs. unfold Rdiv. rewrite Rinv_r.
  - apply sqrt_1.
  - rewrite <- Hs. nra.
Qed.

(** Scaling by a positive factor does not change the normalised vector. *)
Lemma normalized_mul (v : Vec2d.t) (k : R) :
  0 < k -> v <> Vec2d.mk 0 0 ->
  Vec2d.normalized (Vec2d.mul v k) = Vec2d.normalized v.
Proof.
  intros Hk Hv.
  assert (Hl : Vec2d.length v <> 0).
  { intros E. apply Hv. apply length_zero_inv. exact E. }
  assert (Hkv : Vec2d.mul v k <> Vec2d.mk 0 0).
  { intros E. apply Hv.
    apply (f_equal Vec2d.x) in E as Ex. apply (f_equal Vec2d.y) in E as Ey.
    cbn in Ex, Ey. apply Vec2d.eq_intro; cbn; nra. }
  rewrite (normalized_nonzero _ Hkv), (normalized_nonzero _ Hv).
  rewrite length_mul by lra. f_equal.
  apply Vec2d.eq_intro; cbn; field; lra.
Qed.

(** ** [Pendulum.accelerate] *)

Lemma impulse_of_total (d : Vec2d.t) : exists j, Pendulum.impulse_of d = Ok j.
Proof.
  unfold Pendulum.impulse_of.
  destruct (normalized_total d) as [n ->]. cbn. eauto.
Qed.

(** What a call of [accelerate] does to the world, given the impulse. *)
Lemma accelerate_eq (p : Pendulum.t) (d j : Vec2d.t) (w : World) :
  Pendulum.impulse_of d = Ok j ->
  Pendulum.accelerate p d w
  = Ok (mkWorld
          (write (heap w) (Pendulum.circle_body p)
             (Body.apply_impulse_at_local_point
                (heap w (Pendulum.circle_body p)) j (Vec2d.mk 0 0)))
          (next_ref w) (space w) (accelerate_calls w ++ [d])).
Proof.
  intros E. unfold Pendulum.accelerate. rewrite E. reflexivity.
Qed.


(** An impulse through the body's origin leaves everything but the linear
    velocity as it was. *)
Lemma apply_impulse_at_origin (b : Body.t) (j : Vec2d.t) :
  let b' := Body.apply_impulse_at_local_point b j (Vec2d.mk 0 0) in
  Body.body_type b' = Body.body_type b /\
  Body.mass b' = Body.mass b /\
  Body.moment b' = Body.moment b /\
  Body.position b' = Body.position b /\
  Body.angle b' = Body.angle b /\
  Body.angular_velocity b' = Body.angular_velocity b /\
  Body.velocity b'
  = Vec2d.add (Body.velocity b)
      (Vec2d.mul (Body.transform_vect b j) (inverse (Body.mass b))).
Proof.
  cbn. repeat split. ring.
Qed.

Lemma accelerate_velocity (p : Pendulum.t) (d j : Vec2d.t) (w : World) :
  Pendulum.impulse_of d = Ok j ->
  exists w',
    Pendulum.accelerate p d w = Ok w' /\
    heap w' (Pendulum.circle_body p)
    = Body.apply_impulse_at_local_point (heap w (Pendulum.circle_body p)) j
                                        (Vec2d.mk 0 0) /\
    (forall r, r <> Pendulum.circle_body p -> heap w' r = heap w r) /\
    next_ref w' = next_ref w /\
    space w' = space w /\
    accelerate_calls w' = accelerate_calls w ++ [d].
Proof.
  intros Hj. eexists. split; [apply accelerate_eq; exact Hj |].
  cbn [heap next_ref space accelerate_calls].
  split; [apply write_same |].
  split; [intros r Hr; apply write_other; exact Hr |].
  repeat split.
Qed.


(** C10.  A call of [accelerate] returns, and it leaves every body's
    position, every body other than the bob, the bob's mass, moment, angle
    and angular velocity, and the space with its joint as they were; so
    [vector] and [angle] give the same values right after the call as right
    before it. *)
Theorem accelerate_frame (p : Pendulum.t) (d : Vec2d.t) (w : World) :
  exists w',
    Pendulum.accelerate p d w = Ok w' /\
    (forall r, Body.position (heap w' r) = Body.position (heap w r)) /\
    (forall r, r <> Pendulum.circle_body p -> heap w' r = heap w r) /\
    (let bob := heap w (Pendulum.circle_body p) in
     let bob' := heap w' (Pendulum.circle_body p) in
     Body.body_type bob' = Body.body_type bob /\
     Body.mass bob' = Body.mass bob /\
     Body.moment bob' = Body.moment bob /\
     Body.angle bob' = Body.angle bob /\
     Body.angular_velocity bob' = Body.angular_velocity bob) /\
    space w' = space w /\
    Pendulum.vector p w' = Pendulum.vector p w /\
    Pendulum.angle p w' = Pendulum.angle p w.
Proof.
  destruct (impulse_of_total d) as [j Hj].
  destruct (accelerate_velocity p d j w Hj)
    as (w' & Hw' & Hbob & Hothers & _ & Hspace & _).
  pose proof (apply_impulse_at_origin (heap w (Pendulum.circle_body p)) j)
    as (Hty & Hm & Hi & Hpos & Hang & Hav & _).
  assert (Hp : forall r, Body.position (heap w' r) = Body.position (heap w r)).
  { intros r. destruct (Nat.eq_dec r (Pendulum.circle_body p)) as [-> | Hr].
    - rewrite Hbob. exact Hpos.
    - rewrite (Hothers r Hr). reflexivity. }
  assert (Hv : Pendulum.vector p w' = Pendulum.vector p w).
  { unfold Pendulum.vector. rewrite !Hp. reflexivity. }
  exists w'. split; [exact Hw' |].
  split; [exact Hp |].
  split; [exact Hothers |].
  split.
  { cbn zeta. rewrite Hbob. repeat split; assumption. }
  split; [exact Hspace |].
  split; [exact Hv |].
  unfold Pendulum.angle. rewrite Hv. reflexivity.
Qed.



(** ** The frame in which the impulse is applied *)

Lemma rotated_0 (v : Vec2d.t) : Vec2d.rotated v 0 = v.
Proof.
  unfold Vec2d.rotated. rewrite cos_0, sin_0.
  apply Vec2d.eq_intro; cbn; ring.
Qed.

(** While the bob is not rotated, the body frame is the world frame, and
    the impulse applied points along the direction given. *)
Lemma impulse_direction_unrotated
  (p : Pendulum.t) (w : World) (d j n : Vec2d.t) :
  d <> Vec2d.mk 0 0 ->
  Body.angle (heap w (Pendulum.circle_body p)) = 0 ->
  Pendulum.impulse_of d = Ok j ->
  Vec2d.normalized d = Ok n ->
  Vec2d.normalized (Body.transform_vect (heap w (Pendulum.circle_body p)) j)
  = Ok n.
Proof.
  intros Hd Ha Hj Hn.
  unfold Body.transform_vect. rewrite Ha, rotated_0.
  unfold Pendulum.impulse_of in Hj. rewrite Hn in Hj. cbn in Hj.
  injection Hj as <-.
  assert (Hn0 : n <> Vec2d.mk 0 0).
  { intros E. pose proof (length_normalized d n Hd Hn) as H1.
    rewrite E, length_zero in H1. lra. }
  rewrite normalized_mul by (unfold Pendulum.FORCE; lra || exact Hn0).
  rewrite (normalized_nonzero n Hn0).
  pose proof (length_normalized d n Hd Hn) as H1. rewrite H1.
  f_equal. apply Vec2d.eq_intro; cbn; field.
Qed.

Lemma angle_world0 :
  Body.angle (heap world0 (Pendulum.circle_body pendulum0)) = 0.
Proof. reflexivity. Qed.

Lemma length_unit_x : Vec2d.length (Vec2d.mk 1 0) = 1.
Proof.
  unfold Vec2d.length. cbn [Vec2d.x Vec2d.y].
  replace (1 ^ 2 + 0 ^ 2) with 1 by ring. apply sqrt_1.
Qed.

Lemma impulse_of_unit_x : Pendulum.impulse_of (Vec2d.mk 1 0) = Ok (Vec2d.mk 10 0).
Proof.
  unfold Pendulum.impulse_of.
  rewrite normalized_nonzero.
  - rewrite length_unit_x. cbn. f_equal.
    apply Vec2d.eq_intro; cbn; unfold Pendulum.FORCE; field.
  - intros E. apply (f_equal Vec2d.x) in E. cbn in E. lra.
Qed.

(** C3.  With the bob turned by a quarter turn and at rest, [accelerate]
    called with the direction [(1, 0)] leaves the bob moving along [(0, 1)]:
    the impulse is applied in the bob's own frame, so in world coordinates
    it is the given direction turned by the bob's angle. *)
Theorem accelerate_on_rotated_bob :
  Body.velocity (heap world_quarter_turn (Pendulum.circle_body pendulum0))
  = Vec2d.mk 0 0 /\
  exists w',
    Pendulum.accelerate pendulum0 (Vec2d.mk 1 0) world_quarter_turn = Ok w' /\
    Body.velocity (heap w' (Pendulum.circle_body pendulum0)) = Vec2d.mk 0 100 /\
    Vec2d.normalized (Vec2d.mk 0 100) = Ok (Vec2d.mk 0 1) /\
    Vec2d.normalized (Vec2d.mk 1 0) = Ok (Vec2d.mk 1 0).
Proof.
  split; [reflexivity |].
  destruct (accelerate_velocity pendulum0 _ _ world_quarter_turn impulse_of_unit_x)
    as (w' & Hw' & Hbob & _).
  exists w'. split; [exact Hw' |].
  split.
  { rewrite Hbob.
    unfold world_quarter_turn, set_body. cbn [heap]. rewrite write_same.
    unfold Body.apply_impulse_at_local_point, Body.apply_impulse_at_world_point,
      Body.transform_vect, Body.local_to_world, Body.set_angle, Vec2d.rotated.
    cbn [Body.velocity Body.angle Body.mass Body.position].
    rewrite cos_PI2, sin_PI2.
    apply Vec2d.eq_intro; cbn; unfold Pendulum.MASS; lra. }
  split.
  - rewrite normalized_nonzero.
    + assert (El : Vec2d.length (Vec2d.mk 0 100) = 100).
      { unfold Vec2d.length. cbn [Vec2d.x Vec2d.y].
        replace (0 ^ 2 + 100 ^ 2) with (100 ^ 2) by ring.
        apply sqrt_pow2. lra. }
      rewrite El. f_equal. apply Vec2d.eq_intro; cbn; field.
    + intros E. apply (f_equal Vec2d.y) in E. cbn in E. lra.
  - rewrite normalized_nonzero.
    + rewrite length_unit_x. f_equal. apply Vec2d.eq_intro; cbn; field.
    + intros E. apply (f_equal Vec2d.x) in E. cbn in E. lra.
Qed.

(** ** The window: input handling and the update tick *)

(** A quarter turn clockwise, and one counter-clockwise. *)
Lemma rotated_degrees_minus_90 (v : Vec2d.t) :
  Vec2d.rotated_degrees v (-90) = Vec2d.mk (Vec2d.y v) (- Vec2d.x v).
Proof.
  unfold Vec2d.rotated_degrees, Vec2d.rotated, Math.radians.
  replace (-90 * (PI / 180)) with (- (PI / 2)) by field.
  rewrite cos_neg, sin_neg, cos_PI2, sin_PI2.
  apply Vec2d.eq_intro; cbn; ring.
Qed.

Lemma rotated_degrees_90 (v : Vec2d.t) :
  Vec2d.rotated_degrees v 90 = Vec2d.mk (- Vec2d.y v) (Vec2d.x v).
Proof.
  unfold Vec2d.rotated_degrees, Vec2d.rotated, Math.radians.
  replace (90 * (PI / 180)) with (PI / 2) by field.
  rewrite cos_PI2, sin_PI2.
  apply Vec2d.eq_intro; cbn; ring.
Qed.

(** The calls of [accelerate] that one pass of [_handle_input] makes. *)
Lemma handle_input_calls (s : SimulationWindow.t) :
  let v := Pendulum.vector (SimulationWindow.model s) (SimulationWindow.world s) in
  exists s',
    SimulationWindow.handle_input s = Ok s' /\
    SimulationWindow.model s' = SimulationWindow.model s /\
    SimulationWindow.keyboard s' = SimulationWindow.keyboard s /\
    SimulationWindow.angle_label s' = SimulationWindow.angle_label s /\
    accelerate_calls (SimulationWindow.world s')
    = accelerate_calls (SimulationWindow.world s)
      ++ (if SimulationWindow.keyboard s key.LEFT
          then [Vec2d.rotated_degrees v (-90)]
          else if SimulationWindow.keyboard s key.RIGHT
               then [Vec2d.rotated_degrees v 90]
               else []).
Proof.
  intros v. unfold SimulationWindow.handle_input. fold v.
  destruct (SimulationWindow.keyboard s key.LEFT).
  - destruct (impulse_of_total (Vec2d.rotated_degrees v (-90))) as [j Hj].
    rewrite (accelerate_eq _ _ j _ Hj). cbn. eauto 6.
  - destruct (SimulationWindow.keyboard s key.RIGHT).
    + destruct (impulse_of_total (Vec2d.rotated_degrees v 90)) as [j Hj].
      rewrite (accelerate_eq _ _ j _ Hj). cbn. eauto 6.
    + exists s. rewrite app_nil_r. auto.
Qed.

Section Window.

Variable space_step : R -> Space.t * Heap -> Space.t * Heap.

Let step := SimulationWindow.step space_step.
Let update := SimulationWindow.update space_step.
Let trajectory := SimulationWindow.trajectory space_step.

Lemma step_calls (dt : R) (w : World) :
  accelerate_calls (step dt w) = accelerate_calls w.
Proof.
  unfold step, SimulationWindow.step.
  destruct (space_step dt (space w, heap w)). reflexivity.
Qed.

(** What [update] returns, in terms of what [_handle_input] returned. *)
Lemma update_eq (dt : R) (s s1 : SimulationWindow.t) :
  SimulationWindow.handle_input s = Ok s1 ->
  update dt s
  = Ok (let s2 := SimulationWindow.set_world s1
                    (step SimulationWindow.INTERVAL (SimulationWindow.world s1)) in
        SimulationWindow.set_label_text s2
          ("Angle: "
           ++ Format.format_4_0f
                (Pendulum.angle (SimulationWindow.model s2)
                                (SimulationWindow.world s2))
           ++ "°")%string).
Proof.
  intros E. unfold update, SimulationWindow.update. rewrite E. reflexivity.
Qed.

Lemma update_total (dt : R) (s : SimulationWindow.t) :
  exists s', update dt s = Ok s'.
Proof.
  destruct (handle_input_calls s) as (s1 & H1 & _).
  rewrite (update_eq dt s s1 H1). eauto.
Qed.

(** C5.  A call of [update] returns, and during it [accelerate] is called
    once with the pendulum vector rotated by -90 degrees if the left key is
    held; otherwise once with the vector rotated by +90 degrees if the
    right key is held; and not at all if neither is held.  With both keys
    held only the left call is made. *)
Theorem update_accelerate_calls (dt : R) (s : SimulationWindow.t) :
  let v := Pendulum.vector (SimulationWindow.model s) (SimulationWindow.world s) in
  exists s',
    update dt s = Ok s' /\
    accelerate_calls (SimulationWindow.world s')
    = accelerate_calls (SimulationWindow.world s)
      ++ (if SimulationWindow.keyboard s key.LEFT
          then [Vec2d.rotated_degrees v (-90)]
          else if SimulationWindow.keyboard s key.RIGHT
               then [Vec2d.rotated_degrees v 90]
               else []).
Proof.
  intros v.
  destruct (handle_input_calls s) as (s1 & H1 & _ & _ & _ & Hc).
  rewrite (update_eq dt s s1 H1).
  eexists. split; [reflexivity |].
  cbn [SimulationWindow.set_label_text SimulationWindow.set_world
       SimulationWindow.world].
  rewrite step_calls. exact Hc.
Qed.

Lemma update_any_dt (dt dt' : R) (s : SimulationWindow.t) :
  update dt s = update dt' s.
Proof. reflexivity. Qed.

Lemma trajectory_any_dt (ticks1 ticks2 : list (R * KeyStateHandler)) :
  map snd ticks1 = map snd ticks2 ->
  forall s, exists tr,
    trajectory s ticks1 = Ok tr /\ trajectory s ticks2 = Ok tr.
Proof.
  revert ticks2.
  induction ticks1 as [| [dt1 k1] ticks1 IH];
    intros [| [dt2 k2] ticks2] Hkeys s; try discriminate Hkeys.
  - exists []. split; reflexivity.
  - cbn in Hkeys. injection Hkeys as -> Hkeys.
    destruct (update_total dt1 (SimulationWindow.set_keyboard s k2)) as [s' Hs'].
    destruct (IH ticks2 Hkeys s') as (tr & Htr1 & Htr2).
    exists (SimulationWindow.bob_state s' :: tr).
    unfold trajectory in *. cbn [SimulationWindow.trajectory].
    unfold SimulationWindow.tick. cbn [fst snd].
    fold update. rewrite (update_any_dt dt2 dt1), Hs'. cbn [bind].
    rewrite Htr1, Htr2. split; reflexivity.
Qed.

(** C2.  Two sequences of [update] calls from the same state, with the
    same keyboard state at each tick and any [dt] arguments, both return
    and give the same positions and velocities of the bob after each call:
    [update] steps the world by [INTERVAL] = 1/100 and does not use [dt]. *)
Theorem update_ignores_dt
  (s : SimulationWindow.t) (ticks1 ticks2 : list (R * KeyStateHandler)) :
  map snd ticks1 = map snd ticks2 ->
  (exists tr, trajectory s ticks1 = Ok tr /\ trajectory s ticks2 = Ok tr) /\
  (forall dt s0, exists s1 s',
      SimulationWindow.handle_input s0 = Ok s1 /\
      update dt s0 = Ok s' /\
      SimulationWindow.world s'
      = step SimulationWindow.INTERVAL (SimulationWindow.world s1)) /\
  SimulationWindow.INTERVAL = 1 / 100.
Proof.
  intros Hkeys.
  split; [apply trajectory_any_dt; exact Hkeys |].
  split.
  - intros dt s0.
    destruct (handle_input_calls s0) as (s1 & H1 & _).
    exists s1. eexists. split; [exact H1 |].
    split; [apply update_eq; exact H1 | reflexivity].
  - unfold SimulationWindow.INTERVAL. lra.
Qed.

End Window.

Lemma update_ignores_dt_witness :
  exists tr,
    SimulationWindow.trajectory free_fall SimulationWindow.init
      [(0.01, no_keys); (0.5, left_held)] = Ok tr /\
    SimulationWindow.trajectory free_fall SimulationWindow.init
      [(7, no_keys); (0.02, left_held)] = Ok tr.
Proof.
  apply (update_ignores_dt free_fall SimulationWindow.init
           [(0.01, no_keys); (0.5, left_held)]
           [(7, no_keys); (0.02, left_held)]).
  reflexivity.
Defined.

(** With both arrow keys held, one tick makes the left call only. *)
Lemma update_accelerate_calls_witness :
  exists s',
    SimulationWindow.update free_fall 0.01
      (SimulationWindow.set_keyboard SimulationWindow.init both_held) = Ok s' /\
    accelerate_calls (SimulationWindow.world s')
    = [Vec2d.rotated_degrees (Pendulum.vector pendulum0 world0) (-90)].
Proof.
  exact (update_accelerate_calls free_fall 0.01
           (SimulationWindow.set_keyboard SimulationWindow.init both_held)).
Defined.

(** ** The angle label *)

Section Rounding.

Import Format.

(** Below and above a tie, [round_half_even] gives the nearest integer. *)
Lemma round_half_even_near (x : R) (z : Z) :
  Rabs (x - IZR z) < 1 / 2 -> round_half_even x = z.
Proof.
  intros Hz. apply Rabs_def2 in Hz. destruct Hz as [Hhi Hlo].
  unfold round_half_even.
  pose proof (base_fp x) as [Hf0 Hf1].
  pose proof (Rplus_Int_part_frac_part x) as Hx.
  set (f := Int_part x) in *. set (r := frac_part x) in *.
  destruct (Rlt_dec r (1 / 2)) as [A | A].
  - assert (f - z < 1)%Z by (apply lt_IZR; rewrite minus_IZR; lra).
    assert (-1 < f - z)%Z by (apply lt_IZR; rewrite minus_IZR; lra).
    lia.
  - destruct (Rlt_dec (1 / 2) r) as [B | B].
    + assert (f - z < 0)%Z by (apply lt_IZR; rewrite minus_IZR; lra).
      assert (-2 < f - z)%Z by (apply lt_IZR; rewrite minus_IZR; lra).
      lia.
    + exfalso.
      assert (f - z < 0)%Z by (apply lt_IZR; rewrite minus_IZR; lra).
      assert (-1 < f - z)%Z by (apply lt_IZR; rewrite minus_IZR; lra).
      lia.
Qed.

(** At a tie it gives the even neighbour. *)
Lemma round_half_even_tie (z : Z) :
  round_half_even (IZR z + 1 / 2) = if Z.even z then z else (z + 1)%Z.
Proof.
  unfold round_half_even.
  pose proof (base_fp (IZR z + 1 / 2)) as [Hf0 Hf1].
  pose proof (Rplus_Int_part_frac_part (IZR z + 1 / 2)) as Hx.
  assert (Ef : Int_part (IZR z + 1 / 2) = z).
  { symmetry. apply Int_part_spec. lra. }
  rewrite Ef in *.
  destruct (Rlt_dec (frac_part (IZR z + 1 / 2)) (1 / 2)) as [A | A]; [lra |].
  destruct (Rlt_dec (1 / 2) (frac_part (IZR z + 1 / 2))) as [B | B]; [lra |].
  reflexivity.
Qed.

(** The rounded value is within one half of the value. *)
Lemma round_half_even_error (x : R) :
  Rabs (IZR (round_half_even x) - x) <= 1 / 2.
Proof.
  unfold round_half_even.
  pose proof (base_fp x) as [Hf0 Hf1].
  pose proof (Rplus_Int_part_frac_part x) as Hx.
  set (f := Int_part x) in *. set (r := frac_part x) in *.
  apply Rabs_le.
  destruct (Rlt_dec r (1 / 2)) as [A | A]; [lra |].
  destruct (Rlt_dec (1 / 2) r) as [B | B]; [rewrite plus_IZR; lra |].
  destruct (Z.even f); [| rewrite plus_IZR]; lra.
Qed.

Lemma length_append (s1 s2 : string) :
  String.length (s1 ++ s2) = (String.length s1 + String.length s2)%nat.
Proof.
  induction s1 as [| c s1 IH]; cbn; [reflexivity | now rewrite IH].
Qed.

Lemma length_spaces (n : nat) : String.length (spaces n) = n.
Proof. induction n as [| n IH]; cbn; [reflexivity | now rewrite IH]. Qed.

(** The field is at least four characters wide. *)
Lemma length_format_4_0f (x : R) : (4 <= String.length (format_4_0f x))%nat.
Proof.
  unfold format_4_0f, rjust.
  rewrite length_append, length_spaces. lia.
Qed.

Lemma format_positive_integer (z : Z) :
  (0 <= z)%Z ->
  format_4_0f (IZR z) = rjust 4 (digits (Z.to_N z)).
Proof.
  intros Hz. unfold format_4_0f, signed_integer.
  rewrite (round_half_even_near (IZR z) z)
    by (replace (IZR z - IZR z) with 0 by ring; rewrite Rabs_R0; lra).
  destruct (Rlt_dec (IZR z) 0) as [A | _].
  - apply lt_IZR in A. lia.
  - rewrite Z.abs_eq by exact Hz. reflexivity.
Qed.

Lemma format_negative_integer (z : Z) :
  (z < 0)%Z ->
  format_4_0f (IZR z) = rjust 4 ("-" ++ digits (Z.to_N (- z))).
Proof.
  intros Hz. unfold format_4_0f, signed_integer.
  rewrite (round_half_even_near (IZR z) z)
    by (replace (IZR z - IZR z) with 0 by ring; rewrite Rabs_R0; lra).
  destruct (Rlt_dec (IZR z) 0) as [_ | A].
  - rewrite Z.abs_neq by lia. reflexivity.
  - exfalso. apply A. apply (IZR_lt z 0). exact Hz.
Qed.

Example format_90 : format_4_0f 90 = "  90"%string.
Proof. rewrite format_positive_integer by lia. reflexivity. Qed.

Example format_0 : format_4_0f 0 = "   0"%string.
Proof. rewrite format_positive_integer by lia. reflexivity. Qed.

Example format_minus_90 : format_4_0f (-90) = " -90"%string.
Proof. rewrite format_negative_integer by lia. reflexivity. Qed.

Example format_minus_1234 : format_4_0f (-1234) = "-1234"%string.
Proof. rewrite format_negative_integer by lia. reflexivity. Qed.

Example format_tie_2 : format_4_0f 2.5 = "   2"%string.
Proof.
  unfold format_4_0f, signed_integer.
  replace 2.5 with (IZR 2 + 1 / 2) by lra.
  rewrite round_half_even_tie.
  destruct (Rlt_dec (2 + 1 / 2) 0) as [A | _]; [lra | reflexivity].
Qed.

Example format_small_negative : format_4_0f (-0.3) = "  -0"%string.
Proof.
  unfold format_4_0f, signed_integer.
  rewrite (round_half_even_near (-0.3) 0)
    by (apply Rabs_def1; lra).
  destruct (Rlt_dec (-0.3) 0) as [_ | A]; [reflexivity | lra].
Qed.

End Rounding.

Section WindowLabel.

Variable space_step : R -> Space.t * Heap -> Space.t * Heap.

(** C8.  A call of [update] returns, and afterwards the label's text is
    "Angle: ", then the angle of the pendulum in the state [update] leaves
    (after the physics step) formatted with no decimals in a field of
    width 4, then the degree sign.  The formatted angle is a possibly
    empty run of spaces, a minus sign if the angle is negative, and the
    digits of the angle rounded to an integer; it has at least four
    characters. *)
Theorem label_after_update (dt : R) (s : SimulationWindow.t) :
  exists s',
    SimulationWindow.update space_step dt s = Ok s' /\
    let a := Pendulum.angle (SimulationWindow.model s')
                            (SimulationWindow.world s') in
    text (SimulationWindow.angle_label s')
    = ("Angle: " ++ Format.format_4_0f a ++ "°")%string /\
    Format.format_4_0f a
    = (Format.spaces (4 - String.length (Format.signed_integer a))
       ++ (if Rlt_dec a 0 then "-" else "")
       ++ Format.digits (Z.to_N (Z.abs (Format.round_half_even a))))%string /\
    Rabs (IZR (Format.round_half_even a) - a) <= 1 / 2 /\
    (4 <= String.length (Format.format_4_0f a))%nat.
Proof.
  destruct (handle_input_calls s) as (s1 & H1 & _).
  rewrite (update_eq space_step dt s s1 H1).
  eexists. split; [reflexivity |].
  cbn zeta.
  split; [reflexivity |].
  split; [reflexivity |].
  split; [apply round_half_even_error | apply length_format_4_0f].
Qed.

End WindowLabel.

(** ** Construction *)

Lemma moment_of_bob :
  moment_for_circle Pendulum.MASS 0 10.0 (Vec2d.mk 0 0)
  = 1 / 2 * Pendulum.MASS * 10 ^ 2.
Proof. unfold moment_for_circle, Pendulum.MASS. cbn. lra. Qed.

Lemma rod_length :
  Vec2d.length
    (Vec2d.sub (Vec2d.add (Vec2d.mk 360 50) (Vec2d.rotated (Vec2d.mk 0 0) 0))
               (Vec2d.add (Vec2d.mk 360 360) (Vec2d.rotated (Vec2d.mk 0 0) 0)))
  = 310.
Proof.
  rewrite rotated_0. unfold Vec2d.length. cbn [Vec2d.sub Vec2d.add Vec2d.x Vec2d.y].
  replace ((360 + 0 - (360 + 0)) ^ 2 + (50 + 0 - (360 + 0)) ^ 2)
    with (310 ^ 2) by ring.
  apply sqrt_pow2. lra.
Qed.

(** C6.  The constructor of [Pendulum], run on any world, allocates two new
    bodies: a static anchor at (360, 360) and a dynamic bob of mass 0.1 with
    the moment of inertia of a solid disk of radius 10 (one half of mass
    times radius squared) at (360, 50); it adds to the world's space the
    anchor, the bob, a circle shape of radius 10 on the bob and a pin joint
    from the anchor to the bob, in that order after what was there, and
    changes nothing else of the space.  The window's constructor builds the
    pendulum in a space whose gravity it has set to (0, -9807). *)
Theorem constructor_creates_entities (w : World) :
  let p := fst (Pendulum.init w) in
  let w' := snd (Pendulum.init w) in
  let anchor := heap w' (Pendulum.static_body p) in
  let bob := heap w' (Pendulum.circle_body p) in
  (Pendulum.static_body p = next_ref w /\
   Pendulum.circle_body p = S (next_ref w) /\
   forall r, (r < next_ref w)%nat -> heap w' r = heap w r) /\
  (Body.body_type anchor = STATIC /\
   Body.position anchor = Vec2d.mk 360 360) /\
  (Body.body_type bob = DYNAMIC /\
   Body.mass bob = Finite (1 / 10) /\
   Body.moment bob = Finite (1 / 2 * (1 / 10) * 10 ^ 2) /\
   Body.position bob = Vec2d.mk 360 50 /\
   Body.velocity bob = Vec2d.mk 0 0) /\
  (Space.bodies (space w')
   = Space.bodies (space w) ++ [Pendulum.static_body p; Pendulum.circle_body p] /\
   Space.shapes (space w')
   = Space.shapes (space w)
     ++ [Space.Circle (Pendulum.circle_body p) 10 (Vec2d.mk 0 0)] /\
   Space.constraints (space w')
   = Space.constraints (space w)
     ++ [Space.PinJoint (Pendulum.static_body p) (Pendulum.circle_body p)
           (Vec2d.mk 0 0) (Vec2d.mk 0 0) 310] /\
   Space.gravity (space w') = Space.gravity (space w)) /\
  (Space.gravity (space (SimulationWindow.world SimulationWindow.init))
   = Vec2d.mk 0 (-9807) /\
   SimulationWindow.model SimulationWindow.init
   = fst (Pendulum.init
            (mkWorld (fun _ => Body.new 0 0 DYNAMIC) 0%nat
               (Space.set_gravity Space.new (Vec2d.mk 0 (-9807))) [])) /\
   SimulationWindow.world SimulationWindow.init
   = snd (Pendulum.init
            (mkWorld (fun _ => Body.new 0 0 DYNAMIC) 0%nat
               (Space.set_gravity Space.new (Vec2d.mk 0 (-9807))) []))).
Proof.
  assert (Hne : forall n : nat, n <> S n) by (intros n; lia).
  assert (Hne' : forall n : nat, S n <> n) by (intros n; lia).
  cbn -[Nat.eqb moment_for_circle Vec2d.length Vec2d.rotated].
  unfold Space.pin_joint, Body.local_to_world, Body.transform_vect.
  cbn -[Nat.eqb moment_for_circle Vec2d.length Vec2d.rotated].
  repeat rewrite ?write_same, ?(write_other _ _ _ _ (Hne _)),
    ?(write_other _ _ _ _ (Hne' _)).
  cbn -[Nat.eqb moment_for_circle Vec2d.length Vec2d.rotated].
  rewrite rod_length, moment_of_bob.
  split.
  { split; [reflexivity |]. split; [reflexivity |].
    intros r Hr. rewrite !write_other by lia. reflexivity. }
  split; [split; reflexivity |].
  split.
  { split; [reflexivity |].
    split; [f_equal; unfold Pendulum.MASS; lra |].
    split; [f_equal; unfold Pendulum.MASS; lra |].
    split; reflexivity. }
  split.
  { split; [rewrite <- app_assoc; reflexivity |].
    split; [do 3 f_equal; lra |].
    split; reflexivity. }
  repeat split.
Qed.

(** * Further properties *)

(** ** [math.atan2]: scaling, mirroring, and its inverse *)

Section Atan2More.

Import Math.

Lemma atan2_scale (k b a : R) :
  0 < k -> atan2 (k * b) (k * a) = atan2 b a.
Proof.
  intros Hk. unfold atan2.
  destruct (Rlt_dec 0 (k * a)) as [A | A]; destruct (Rlt_dec 0 a) as [A' | A'];
    try (exfalso; nra).
  - f_equal. field. split; lra.
  - destruct (Rlt_dec (k * a) 0) as [B | B]; destruct (Rlt_dec a 0) as [B' | B'];
      try (exfalso; nra).
    + assert (E : k * b / (k * a) = b / a) by (field; split; lra).
      rewrite E.
      destruct (Rle_dec 0 (k * b)) as [C | C]; destruct (Rle_dec 0 b) as [C' | C'];
        try (exfalso; nra); reflexivity.
    + destruct (Rlt_dec 0 (k * b)) as [C | C]; destruct (Rlt_dec 0 b) as [C' | C'];
        try (exfalso; nra); try reflexivity.
      destruct (Rlt_dec (k * b) 0) as [D | D]; destruct (Rlt_dec b 0) as [D' | D'];
        try (exfalso; nra); reflexivity.
Qed.

Lemma atan2_opp (b a : R) :
  ~ (b = 0 /\ a < 0) -> atan2 (- b) a = - atan2 b a.
Proof.
  intros Hedge. unfold atan2.
  assert (E : - b / a = - (b / a)) by (unfold Rdiv; ring).
  destruct (Rlt_dec 0 a) as [A | A].
  - rewrite E. apply atan_opp.
  - destruct (Rlt_dec a 0) as [B | B].
    + rewrite E, atan_opp.
      destruct (Rle_dec 0 (- b)) as [C | C]; destruct (Rle_dec 0 b) as [C' | C'].
      * exfalso. apply Hedge. split; lra.
      * ring.
      * ring.
      * exfalso. lra.
    + destruct (Rlt_dec 0 (- b)) as [C | C]; destruct (Rlt_dec 0 b) as [C' | C'];
        try (exfalso; lra).
      * destruct (Rlt_dec b 0) as [D | D]; [ring | exfalso; lra].
      * destruct (Rlt_dec (- b) 0) as [D | D]; [ring | exfalso; lra].
      * destruct (Rlt_dec (- b) 0) as [D | D]; [exfalso; lra |].
        destruct (Rlt_dec b 0) as [D' | D']; [exfalso; lra | ring].
Qed.




End Atan2More.

(** ** [Pendulum.angle] and [Pendulum.vector]: further properties *)

Lemma angle_eq (p : Pendulum.t) (w : World) :
  Pendulum.angle p w
  = Math.degrees (Math.atan2 (Vec2d.x (Pendulum.vector p w))
                             (- Vec2d.y (Pendulum.vector p w))).
Proof.
  unfold Pendulum.angle, Vec2d.get_angle_degrees_between, Vec2d.get_angle_between.
  cbn [Vec2d.x Vec2d.y]. f_equal. f_equal; ring.
Qed.

(** X1.  The angle depends on the direction of the pendulum vector only:
    two states whose vectors differ by a positive factor have the same
    angle. *)
Theorem angle_scale_invariant (p : Pendulum.t) (w1 w2 : World) (k : R) :
  0 < k ->
  Pendulum.vector p w2 = Vec2d.mul (Pendulum.vector p w1) k ->
  Pendulum.angle p w2 = Pendulum.angle p w1.
Proof.
  intros Hk E. rewrite !angle_eq, E. cbn [Vec2d.mul Vec2d.x Vec2d.y].
  f_equal.
  replace (Vec2d.x (Pendulum.vector p w1) * k)
    with (k * Vec2d.x (Pendulum.vector p w1)) by ring.
  replace (- (Vec2d.y (Pendulum.vector p w1) * k))
    with (k * - Vec2d.y (Pendulum.vector p w1)) by ring.
  apply atan2_scale. exact Hk.
Qed.

Lemma pendulum0_distinct :
  Pendulum.static_body pendulum0 <> Pendulum.circle_body pendulum0.
Proof. cbv. discriminate. Qed.

Lemma angle_scale_invariant_witness :
  Pendulum.angle pendulum0 (displace pendulum0 world0 (Vec2d.mul (Vec2d.mk 3 4) 2))
  = Pendulum.angle pendulum0 (displace pendulum0 world0 (Vec2d.mk 3 4)).
Proof.
  apply (angle_scale_invariant pendulum0 _ _ 2).
  - lra.
  - rewrite !vector_displace by exact pendulum0_distinct. reflexivity.
Defined.

(** X2.  Mirroring the bob across the vertical line through the anchor
    negates the angle, except when the bob is straight above the anchor. *)
Theorem angle_mirror (p : Pendulum.t) (w1 w2 : World) :
  ~ (Vec2d.x (Pendulum.vector p w1) = 0 /\ 0 < Vec2d.y (Pendulum.vector p w1)) ->
  Pendulum.vector p w2
  = Vec2d.mk (- Vec2d.x (Pendulum.vector p w1)) (Vec2d.y (Pendulum.vector p w1)) ->
  Pendulum.angle p w2 = - Pendulum.angle p w1.
Proof.
  intros Hedge E. rewrite !angle_eq, E. cbn [Vec2d.x Vec2d.y].
  rewrite atan2_opp by (intros [H1 H2]; apply Hedge; split; lra).
  unfold Math.degrees. ring.
Qed.

Lemma angle_mirror_witness :
  Pendulum.angle pendulum0 (displace pendulum0 world0 (Vec2d.mk (- (3)) (-4)))
  = - Pendulum.angle pendulum0 (displace pendulum0 world0 (Vec2d.mk 3 (-4))).
Proof.
  apply (angle_mirror pendulum0).
  - rewrite vector_displace by exact pendulum0_distinct. cbn. lra.
  - rewrite !vector_displace by exact pendulum0_distinct. reflexivity.
Defined.

(** X3.  With the bob straight above the anchor, at any positive distance,
    the angle is +180 degrees (the upper end of the range, not -180). *)
Theorem angle_straight_up (p : Pendulum.t) (w : World) (L : R) :
  0 < L ->
  Pendulum.vector p w = Vec2d.mk 0 L ->
  Pendulum.angle p w = 180.
Proof.
  intros HL E. rewrite angle_eq, E. cbn [Vec2d.x Vec2d.y].
  unfold Math.atan2.
  destruct (Rlt_dec 0 (- L)) as [A | A]; [lra |].
  destruct (Rlt_dec (- L) 0) as [B | B]; [| lra].
  destruct (Rle_dec 0 0) as [C | C]; [| lra].
  replace (0 / - L) with 0 by (field; lra).
  rewrite atan_0. unfold Math.degrees. pose proof PI_RGT_0. field. lra.
Qed.

Lemma angle_straight_up_witness :
  Pendulum.angle pendulum0 (displace pendulum0 world0 (Vec2d.mk 0 310)) = 180.
Proof.
  apply (angle_straight_up pendulum0 _ 310).
  - lra.
  - apply vector_displace. exact pendulum0_distinct.
Defined.



(** X5.  [vector] and [angle] depend on the relative position only: moving
    the anchor and the bob by the same offset changes neither. *)
Theorem vector_translation_invariant
  (p : Pendulum.t) (w : World) (offset : Vec2d.t) :
  Pendulum.static_body p <> Pendulum.circle_body p ->
  let w' :=
    assign_position
      (assign_position w (Pendulum.static_body p)
         (Vec2d.add (Body.position (anchor_of p w)) offset))
      (Pendulum.circle_body p)
      (Vec2d.add (Body.position (bob_of p w)) offset) in
  Pendulum.vector p w' = Pendulum.vector p w /\
  Pendulum.angle p w' = Pendulum.angle p w.
Proof.
  intros Hne w'.
  assert (Hv : Pendulum.vector p w' = Pendulum.vector p w).
  { unfold w'. rewrite vector_assign by exact Hne.
    unfold Pendulum.vector, bob_of, anchor_of.
    apply Vec2d.eq_intro; cbn; ring. }
  split; [exact Hv |].
  unfold Pendulum.angle. rewrite Hv. reflexivity.
Qed.

Lemma vector_translation_invariant_witness :
  let w' :=
    assign_position
      (assign_position world0 (Pendulum.static_body pendulum0)
         (Vec2d.add (Body.position (anchor_of pendulum0 world0)) (Vec2d.mk (-500) 7)))
      (Pendulum.circle_body pendulum0)
      (Vec2d.add (Body.position (bob_of pendulum0 world0)) (Vec2d.mk (-500) 7)) in
  Pendulum.vector pendulum0 w' = Pendulum.vector pendulum0 world0 /\
  Pendulum.angle pendulum0 w' = Pendulum.angle pendulum0 world0.
Proof.
  apply (vector_translation_invariant pendulum0 world0 (Vec2d.mk (-500) 7)).
  exact pendulum0_distinct.
Defined.

(** ** [Pendulum.accelerate]: further properties *)


Lemma impulse_of_zero : Pendulum.impulse_of (Vec2d.mk 0 0) = Ok (Vec2d.mk 0 0).
Proof.
  unfold Pendulum.impulse_of. rewrite normalized_zero. cbn. f_equal.
  apply Vec2d.eq_intro; cbn; ring.
Qed.


(** The impulse is a multiple of the direction. *)
Lemma impulse_parallel (d j : Vec2d.t) :
  Pendulum.impulse_of d = Ok j -> exists c, j = Vec2d.mul d c.
Proof.
  unfold Pendulum.impulse_of, Vec2d.normalized, Vec2d.truediv.
  destruct (Req_dec_T (Vec2d.length d) 0) as [E | E]; cbn; intros [= <-].
  - exists 0. apply length_zero_inv in E. rewrite E.
    apply Vec2d.eq_intro; cbn; ring.
  - exists (Pendulum.FORCE / Vec2d.length d).
    apply Vec2d.eq_intro; cbn; field; exact E.
Qed.


(** The bob after a call of [accelerate], in terms of the bob before. *)
Lemma accelerate_bob (p : Pendulum.t) (d j : Vec2d.t) (w : World) :
  Pendulum.impulse_of d = Ok j ->
  exists w',
    Pendulum.accelerate p d w = Ok w' /\
    bob_of p w'
    = Body.apply_impulse_at_local_point (bob_of p w) j (Vec2d.mk 0 0) /\
    Body.velocity (bob_of p w')
    = Vec2d.add (Body.velocity (bob_of p w))
        (Vec2d.mul (Vec2d.rotated j (Body.angle (bob_of p w)))
                   (inverse (Body.mass (bob_of p w)))) /\
    (forall r, r <> Pendulum.circle_body p -> heap w' r = heap w r) /\
    next_ref w' = next_ref w /\
    space w' = space w.
Proof.
  intros Hj.
  destruct (accelerate_velocity p d j w Hj)
    as (w' & Hw' & Hbob & Hothers & Hnext & Hspace & _).
  exists w'. unfold bob_of. rewrite Hbob. repeat split; assumption.
Qed.





(** ** [SimulationWindow._handle_input]: further properties *)


(** The bob's velocity after [_handle_input], when a key makes it push. *)
Lemma handle_input_push (s : SimulationWindow.t) (d j : Vec2d.t) :
  (if SimulationWindow.keyboard s key.LEFT
   then Vec2d.rotated_degrees
          (Pendulum.vector (SimulationWindow.model s) (SimulationWindow.world s))
          (-90)
   else Vec2d.rotated_degrees
          (Pendulum.vector (SimulationWindow.model s) (SimulationWindow.world s))
          90) = d ->
  pushes (SimulationWindow.keyboard s) = true ->
  Pendulum.impulse_of d = Ok j ->
  exists s',
    SimulationWindow.handle_input s = Ok s' /\
    SimulationWindow.model s' = SimulationWindow.model s /\
    Body.velocity (bob_of (SimulationWindow.model s) (SimulationWindow.world s'))
    = Vec2d.add
        (Body.velocity (bob_of (SimulationWindow.model s) (SimulationWindow.world s)))
        (Vec2d.mul
           (Vec2d.rotated j
              (Body.angle (bob_of (SimulationWindow.model s) (SimulationWindow.world s))))
           (inverse
              (Body.mass (bob_of (SimulationWindow.model s) (SimulationWindow.world s))))).
Proof.
  intros Hd Hp Hj.
  destruct (accelerate_bob (SimulationWindow.model s) d j (SimulationWindow.world s) Hj)
    as (w' & Hw' & _ & Hv & _).
  exists (SimulationWindow.set_world s w').
  unfold SimulationWindow.handle_input, pushes in *.
  destruct (SimulationWindow.keyboard s key.LEFT).
  - rewrite Hd, Hw'. cbn. auto.
  - cbn in Hp. rewrite Hp, Hd, Hw'. cbn. auto.
Qed.

Lemma handle_input_idle (s : SimulationWindow.t) :
  pushes (SimulationWindow.keyboard s) = false ->
  SimulationWindow.handle_input s = Ok s.
Proof.
  unfold pushes, SimulationWindow.handle_input.
  destruct (SimulationWindow.keyboard s key.LEFT); [discriminate |].
  cbn. intros ->. reflexivity.
Qed.

(** X8.  While the bob is not rotated, whatever [_handle_input] does to the
    bob's velocity is at a right angle to the pendulum vector: a key pushes
    the bob along its circle, never along the rod. *)
Theorem key_push_is_tangential (s : SimulationWindow.t) :
  let p := SimulationWindow.model s in
  let w := SimulationWindow.world s in
  Body.angle (bob_of p w) = 0 ->
  exists s',
    SimulationWindow.handle_input s = Ok s' /\
    dot (Vec2d.sub (Body.velocity (bob_of p (SimulationWindow.world s')))
                   (Body.velocity (bob_of p w)))
        (Pendulum.vector p w)
    = 0.
Proof.
  intros p w Ha.
  destruct (pushes (SimulationWindow.keyboard s)) eqn:Hp.
  - set (d := if SimulationWindow.keyboard s key.LEFT
              then Vec2d.rotated_degrees (Pendulum.vector p w) (-90)
              else Vec2d.rotated_degrees (Pendulum.vector p w) 90).
    destruct (impulse_of_total d) as [j Hj].
    destruct (handle_input_push s d j eq_refl Hp Hj) as (s' & Hs' & _ & Hv).
    exists s'. split; [exact Hs' |].
    fold p w in Hv. rewrite Hv, Ha, rotated_0.
    destruct (impulse_parallel d j Hj) as [c ->].
    unfold d, dot.
    destruct (SimulationWindow.keyboard s key.LEFT);
      rewrite ?rotated_degrees_minus_90, ?rotated_degrees_90; cbn; ring.
  - exists s. split; [apply handle_input_idle; exact Hp |].
    unfold dot, w. cbn. ring.
Qed.

Lemma key_push_is_tangential_witness :
  exists s',
    SimulationWindow.handle_input
      (SimulationWindow.set_keyboard SimulationWindow.init left_held) = Ok s' /\
    dot (Vec2d.sub (Body.velocity (bob_of pendulum0 (SimulationWindow.world s')))
                   (Body.velocity (bob_of pendulum0 world0)))
        (Pendulum.vector pendulum0 world0)
    = 0.
Proof.
  apply (key_push_is_tangential
           (SimulationWindow.set_keyboard SimulationWindow.init left_held)).
  reflexivity.
Defined.



(** X10.  If the bob sits on the anchor, the angle is 0 and
    [_handle_input] returns with the bob's velocity unchanged, whichever
    keys are held and however the bob is rotated. *)
Theorem key_push_at_anchor (s : SimulationWindow.t) :
  let p := SimulationWindow.model s in
  let w := SimulationWindow.world s in
  Pendulum.vector p w = Vec2d.mk 0 0 ->
  Pendulum.angle p w = 0 /\
  exists s',
    SimulationWindow.handle_input s = Ok s' /\
    Body.velocity (bob_of p (SimulationWindow.world s'))
    = Body.velocity (bob_of p w).
Proof.
  intros p w Hv. split.
  - rewrite angle_eq, Hv. cbn [Vec2d.x Vec2d.y]. unfold Math.atan2.
    destruct (Rlt_dec 0 (- 0)) as [A | A]; [lra |].
    destruct (Rlt_dec (- 0) 0) as [B | B]; [lra |].
    destruct (Rlt_dec 0 0) as [C | C]; [lra |].
    unfold Math.degrees. ring.
  - destruct (pushes (SimulationWindow.keyboard s)) eqn:Hp.
    + set (d := if SimulationWindow.keyboard s key.LEFT
                then Vec2d.rotated_degrees (Pendulum.vector p w) (-90)
                else Vec2d.rotated_degrees (Pendulum.vector p w) 90).
      destruct (impulse_of_total d) as [j Hj].
      destruct (handle_input_push s d j eq_refl Hp Hj) as (s' & Hs' & _ & Hvel).
      exists s'. split; [exact Hs' |].
      fold p w in Hvel. rewrite Hvel.
      destruct (impulse_parallel d j Hj) as [c ->].
      unfold d. rewrite Hv.
      destruct (SimulationWindow.keyboard s key.LEFT);
        rewrite ?rotated_degrees_minus_90, ?rotated_degrees_90;
        apply Vec2d.eq_intro; cbn; ring.
    + exists s. split; [apply handle_input_idle; exact Hp | reflexivity].
Qed.

Lemma key_push_at_anchor_witness :
  let s := SimulationWindow.set_keyboard
             (SimulationWindow.set_world SimulationWindow.init
                (displace pendulum0 world0 (Vec2d.mk 0 0)))
             left_held in
  Pendulum.angle pendulum0 (SimulationWindow.world s) = 0 /\
  exists s',
    SimulationWindow.handle_input s = Ok s' /\
    Body.velocity (bob_of pendulum0 (SimulationWindow.world s'))
    = Body.velocity (bob_of pendulum0 (SimulationWindow.world s)).
Proof.
  apply (key_push_at_anchor
           (SimulationWindow.set_keyboard
              (SimulationWindow.set_world SimulationWindow.init
                 (displace pendulum0 world0 (Vec2d.mk 0 0)))
              left_held)).
  apply (vector_displace pendulum0 world0). exact pendulum0_distinct.
Defined.

(** ** [SimulationWindow.update] and the event loop: further properties *)

Lemma digits_short_check :
  forallb (fun k => Nat.leb (String.length (Format.digits (N.of_nat k))) 3)
          (seq 0 1000) = true.
Proof. vm_compute. reflexivity. Qed.

Lemma digits_short (n : N) :
  (n < 1000)%N -> (String.length (Format.digits n) <= 3)%nat.
Proof.
  intros Hn.
  pose proof digits_short_check as H. rewrite forallb_forall in H.
  specialize (H (N.to_nat n)).
  rewrite N2Nat.id in H. apply Nat.leb_le. apply H.
  apply in_seq. lia.
Qed.

Lemma signed_integer_short (a : R) :
  -180 < a <= 180 -> (String.length (Format.signed_integer a) <= 4)%nat.
Proof.
  intros [Hlo Hhi].
  pose proof (round_half_even_error a) as He.
  set (n := Format.round_half_even a) in *.
  assert (He' : - (1 / 2) <= IZR n - a <= 1 / 2).
  { unfold Rabs in He. destruct (Rcase_abs (IZR n - a)); lra. }
  assert (Hn1 : (-181 < n)%Z) by (apply lt_IZR; lra).
  assert (Hn2 : (n < 181)%Z) by (apply lt_IZR; lra).
  assert (Hd : (String.length (Format.digits (Z.to_N (Z.abs n))) <= 3)%nat)
    by (apply digits_short; lia).
  unfold Format.signed_integer. fold n.
  rewrite length_append.
  destruct (Rlt_dec a 0); cbn [String.length]; lia.
Qed.

Lemma format_angle_width (p : Pendulum.t) (w : World) :
  String.length (Format.format_4_0f (Pendulum.angle p w)) = 4%nat.
Proof.
  pose proof (signed_integer_short _ (angle_range p w)) as H.
  unfold Format.format_4_0f, Format.rjust.
  rewrite length_append, length_spaces. lia.
Qed.

Section Loop.

Variable space_step : R -> Space.t * Heap -> Space.t * Heap.

(** X11.  After every call of [update] the number in the label fills its
    field of four characters exactly: since the angle lies in (-180, 180],
    the text between "Angle: " and the degree sign never grows beyond the
    field. *)
Theorem label_field_is_four_wide (dt : R) (s : SimulationWindow.t) :
  exists s',
    SimulationWindow.update space_step dt s = Ok s' /\
    let f := Format.format_4_0f
               (Pendulum.angle (SimulationWindow.model s')
                               (SimulationWindow.world s')) in
    text (SimulationWindow.angle_label s') = ("Angle: " ++ f ++ "°")%string /\
    String.length f = 4%nat.
Proof.
  destruct (handle_input_calls s) as (s1 & H1 & _).
  rewrite (update_eq space_step dt s s1 H1).
  eexists. split; [reflexivity |].
  cbn zeta. split; [reflexivity | apply format_angle_width].
Qed.



End Loop.

(** ** [Pendulum._create_entities]: further properties *)

Lemma create_entities_allocates (w : World) :
  let p := fst (Pendulum.init w) in
  let w' := snd (Pendulum.init w) in
  Pendulum.static_body p = next_ref w /\
  Pendulum.circle_body p = S (next_ref w) /\
  next_ref w' = S (S (next_ref w)) /\
  forall r, (r < next_ref w)%nat -> heap w' r = heap w r.
Proof.
  cbn -[Nat.eqb moment_for_circle Space.pin_joint].
  repeat split.
  intros r Hr. rewrite !write_other by lia. reflexivity.
Qed.

(** X13.  Building a second pendulum in the same space takes two new
    bodies and leaves the bodies of a pendulum built earlier alone: the
    earlier pendulum's vector and angle are what they were, and the two
    pendulums share no body. *)
Theorem second_pendulum_leaves_first (p1 : Pendulum.t) (w : World) :
  (Pendulum.static_body p1 < next_ref w)%nat ->
  (Pendulum.circle_body p1 < next_ref w)%nat ->
  let p2 := fst (Pendulum.init w) in
  let w2 := snd (Pendulum.init w) in
  Pendulum.vector p1 w2 = Pendulum.vector p1 w /\
  Pendulum.angle p1 w2 = Pendulum.angle p1 w /\
  Pendulum.static_body p2 <> Pendulum.circle_body p2 /\
  Pendulum.static_body p2 <> Pendulum.static_body p1 /\
  Pendulum.static_body p2 <> Pendulum.circle_body p1 /\
  Pendulum.circle_body p2 <> Pendulum.static_body p1 /\
  Pendulum.circle_body p2 <> Pendulum.circle_body p1.
Proof.
  intros Hs Hc p2 w2.
  destruct (create_entities_allocates w) as (Es & Ec & _ & Hold).
  fold p2 w2 in Es, Ec, Hold.
  assert (Hv : Pendulum.vector p1 w2 = Pendulum.vector p1 w).
  { unfold Pendulum.vector. rewrite !Hold by assumption. reflexivity. }
  split; [exact Hv |].
  split; [unfold Pendulum.angle; rewrite Hv; reflexivity |].
  rewrite Es, Ec. repeat split; lia.
Qed.

Lemma second_pendulum_leaves_first_witness :
  let p2 := fst (Pendulum.init world0) in
  let w2 := snd (Pendulum.init world0) in
  Pendulum.vector pendulum0 w2 = Pendulum.vector pendulum0 world0 /\
  Pendulum.angle pendulum0 w2 = Pendulum.angle pendulum0 world0 /\
  Pendulum.static_body p2 <> Pendulum.circle_body p2 /\
  Pendulum.static_body p2 <> Pendulum.static_body pendulum0 /\
  Pendulum.static_body p2 <> Pendulum.circle_body pendulum0 /\
  Pendulum.circle_body p2 <> Pendulum.static_body pendulum0 /\
  Pendulum.circle_body p2 <> Pendulum.circle_body pendulum0.
Proof.
  apply (second_pendulum_leaves_first pendulum0 world0); cbv; lia.
Defined.
